(** * Trace_ELBO.differentiable_loss (pyro/contrib/funsor/infer/trace_elbo.py)

    A shallow embedding of the body of [Trace_ELBO.differentiable_loss] and
    the properties of the estimator it assembles.

    The method runs under [funsor.terms.lazy]: every arithmetic operation on
    a funsor builds a term instead of computing a number, so funsors are
    modelled as the terms they are.  The routines of the funsor library that
    the method calls ([_partition], [partial_sum_product], [sum_product],
    [apply_optimizer], [adjoint]) and the tracing machinery of pyro are not
    part of the file under study; they are the fields of the class
    [FunsorLib], and every result below holds for all of their
    implementations. *)

From stdpp Require Import gmap strings list.
From Stdlib Require Import ZArith.

(** ** Names, domains and operators *)

(** A variable is shared by name; a [funsor.Variable] is a name with its
    domain. *)
Abbreviation name := string.

Inductive domain : Type :=
  | Real
  | Bint (size : nat).

#[global] Instance domain_eq_dec : EqDecision domain.
Proof. solve_decision. Defined.

#[global] Instance domain_countable : Countable domain.
Proof.
  refine (inj_countable'
            (fun d => match d with Real => None | Bint n => Some n end)
            (fun o => match o with None => Real | Some n => Bint n end) _).
  by intros [].
Defined.

(** The operators of [funsor.ops] that the method names. *)
Inductive op : Type := Add | Mul | Neg | Logaddexp | Mean.

#[global] Instance op_eq_dec : EqDecision op.
Proof. solve_decision. Defined.

(** ** Lazy funsor terms *)

Inductive funsor : Type :=
  | Tensor (label : string) (ins : list (name * domain))
      (* a tensor-backed funsor read from a trace, with its named inputs *)
  | Zeros
      (* funsor.Tensor(funsor.ops.new_zeros(prototype, ())) *)
  | Number (z : Z)
      (* to_funsor(z, output=funsor.Real) *)
  | Constant (const_inputs : list (name * domain)) (arg : funsor)
  | Unary (o : op) (arg : funsor)
  | Binary (o : op) (lhs rhs : funsor)
  | Reduce (o : op) (arg : funsor) (reduced_vars : gset name)
  | Integrate (log_measure integrand : funsor) (reduced_vars : gset name).

(** [f.inputs]: the ordered dictionary from input names to domains. *)
Definition merge_inputs (a b : list (name * domain)) : list (name * domain) :=
  a ++ filter (fun kv => kv.1 ∉ a.*1) b.

Definition drop_inputs (vs : gset name) (a : list (name * domain))
  : list (name * domain) :=
  filter (fun kv => kv.1 ∉ vs) a.

Fixpoint inputs (f : funsor) : list (name * domain) :=
  match f with
  | Tensor _ ins => ins
  | Zeros => []
  | Number _ => []
  | Constant const_inputs arg => merge_inputs const_inputs (inputs arg)
  | Unary _ arg => inputs arg
  | Binary _ lhs rhs => merge_inputs (inputs lhs) (inputs rhs)
  | Reduce _ arg vs => drop_inputs vs (inputs arg)
  | Integrate lm integrand vs =>
      drop_inputs vs (merge_inputs (inputs lm) (inputs integrand))
  end.

(** [frozenset(f.inputs)]: iterating a dictionary yields its keys. *)
Definition input_names (f : funsor) : gset name := list_to_set (inputs f).*1.

(** [f.input_vars]: the frozenset of [Variable(name, domain)]. *)
Definition input_vars (f : funsor) : gset (name * domain) :=
  list_to_set (inputs f).

(** The value of a term given the values [rho] of the nodes that arithmetic
    does not look into (tensors, reductions, integrals). *)
Fixpoint eval (rho : funsor -> Z) (f : funsor) : Z :=
  match f with
  | Zeros => 0
  | Number z => z
  | Constant _ arg => eval rho arg
  | Unary Neg arg => - eval rho arg
  | Binary Add lhs rhs => eval rho lhs + eval rho rhs
  | Binary Mul lhs rhs => eval rho lhs * eval rho rhs
  | _ => rho f
  end%Z.

(** ** Exceptions *)

Inductive exn : Type :=
  | TypeError (msg : string)
  | KeyError (key : funsor)
  | KeyErrorVars (key : gset (name * domain))
  | LibraryError (msg : string).

Inductive result (A : Type) : Type :=
  | Ok (a : A)
  | Raise (e : exn).
Arguments Ok {A} a.
Arguments Raise {A} e.

#[global] Instance result_ret : MRet result := fun _ a => Ok a.
#[global] Instance result_bind : MBind result := fun _ _ k r =>
  match r with Ok a => k a | Raise e => Raise e end.

Definition is_ok {A} (r : result A) : Prop := exists a, r = Ok a.

(** ** The bundle returned by [terms_from_trace] *)

Record terms : Type := {
  log_factors : list funsor;
  log_measures : list funsor;
  measure_vars : gset name;
  plate_vars : gset name;
  scale : funsor
}.

(** ** The estimator object and the handlers it installs *)

(** [self.max_plate_nesting] is [None], an integer or [float("inf")]. *)
Inductive nesting : Type :=
  | NestNone
  | NestInt (n : Z)
  | NestInf.

(** The value of [-self.max_plate_nesting] when the negation is defined. *)
Inductive dimension : Type :=
  | DimInt (d : Z)
  | DimNegInf.

Record ELBO : Type := {
  num_particles : Z;
  max_plate_nesting : nesting
}.

Inductive handler : Type :=
  | enum (first_available_dim : option Z)
  | provenance
  | plate (nm : name) (size : Z) (dim : dimension)
  | ExitStack.

(** ** What the method takes from its collaborators *)

(** [enter h] stands for building the context manager [h] and entering it;
    it may raise (a plate checks its dimension).  [get_terms hs prog] stands
    for lines 33 to 37: tracing the guide and the replayed model of [prog]
    under the handlers [hs] and extracting the two bundles (guide first).
    The funsor routines are called with their arguments in the order (sum
    operator, product operator, factors, plates, eliminate).

    [adjoint sum_op prod_op root target] stands for [marginals[target]] with
    [marginals = adjoint(sum_op, prod_op, root)]: what the subscript does for
    a key the mapping does not hold (raise, or answer a default value) is
    the mapping's own business, so the lookup returns a value or raises as
    the library decides.  [reduce op f vs] stands for the method call
    [f.reduce(op, vs)], which may raise as well. *)
Class FunsorLib : Type := {
  program : Type;
  data : Type;
  enter : handler -> result unit;
  get_terms : list handler -> program -> result (terms * terms);
  _partition :
    list funsor -> gset name -> list (list funsor * gset name);
  partial_sum_product :
    op -> op -> list funsor -> gset name -> gset name -> list funsor;
  sum_product :
    op -> op -> list funsor -> gset name -> gset name -> funsor;
  apply_optimizer : funsor -> funsor;
  adjoint : op -> op -> funsor -> funsor -> result funsor;
  reduce : op -> funsor -> gset name -> result funsor;
  to_data : funsor -> data;
  neg_data : data -> data
}.

(** ** Python helpers *)

(** A loop whose body may raise. *)
Fixpoint fold_result {A B} (body : B -> A -> result B) (acc : B) (l : list A)
  : result B :=
  match l with
  | [] => Ok acc
  | x :: l' => acc' ← body acc x; fold_result body acc' l'
  end.

(** [frozenset.intersection] applied to the unpacked sequence [xs]: the
    unbound method needs at least one argument. *)
Definition frozenset_intersection (xs : list (gset name)) : result (gset name) :=
  match xs with
  | [] =>
      Raise (TypeError "unbound method frozenset.intersection() needs an argument")
  | x :: rest => Ok (foldl (∩) x rest)
  end.

(** [frozenset().union] applied to the unpacked sequence [xs]. *)
Definition frozenset_union (xs : list (gset name)) : gset name :=
  foldl (∪) ∅ xs.

(** A dictionary keyed by frozensets of variables, in insertion order. *)
Abbreviation dict := (list (gset (name * domain) * funsor)).

Fixpoint dict_get (d : dict) (k : gset (name * domain)) : option funsor :=
  match d with
  | [] => None
  | (k', v) :: d' => if decide (k = k') then Some v else dict_get d' k
  end.

Definition dict_values (d : dict) : list funsor := d.*2.

(** [d[k]] *)
Definition dict_getitem (d : dict) (k : gset (name * domain)) : result funsor :=
  match dict_get d k with
  | Some v => Ok v
  | None => Raise (KeyErrorVars k)
  end.

(** [-self.max_plate_nesting] *)
Definition py_neg (n : nesting) : result dimension :=
  match n with
  | NestNone => Raise (TypeError "bad operand type for unary -: 'NoneType'")
  | NestInt n => Ok (DimInt (- n))
  | NestInf => Ok DimNegInf
  end.

(** ** The method, stage by stage *)

(** Lines 23 to 32: the three context managers of the [with] statement.  The
    conditional expression belongs to the third item only. *)
Definition first_available_dim_of (self : ELBO) : option Z :=
  match max_plate_nesting self with
  | NestInt n => Some (- n - 1)%Z
  | NestNone | NestInf => None
  end.

Section Handlers.
Context `{FunsorLib}.

(** The items of a [with] statement are built and entered from left to
    right; [contextlib.ExitStack()] holds nothing and is entered without
    effect. *)
Definition contexts (self : ELBO) : result (list handler) :=
  let e := enum (first_available_dim_of self) in
  _ ← enter e;
  let p := provenance in
  _ ← enter p;
  third ←
    (if decide (1 < num_particles self)%Z then
       d ← py_neg (max_plate_nesting self);
       let pl := plate "num_particles_vectorized" (num_particles self) d in
       _ ← enter pl;
       Ok pl
     else Ok ExitStack);
  Ok [e; p; third].

End Handlers.

(** Lines 39 to 43. *)
Definition particle_var_of (self : ELBO) : gset name :=
  if decide (1 < num_particles self)%Z
  then {["num_particles_vectorized"]} else ∅.

(** Lines 44 to 46. *)
Definition plate_vars_of (self : ELBO) (guide_terms model_terms : terms)
  : gset name :=
  (plate_vars guide_terms ∪ plate_vars model_terms) ∖ particle_var_of self.

(** Line 48. *)
Definition model_measure_vars_of (guide_terms model_terms : terms) : gset name :=
  measure_vars model_terms ∖ measure_vars guide_terms.

(** Lines 51 to 56: [model_measure_vars.intersection(f.inputs)] is truthy
    when it is not empty. *)
Definition split_step (model_measure_vars : gset name)
    (acc : list funsor * list funsor) (f : funsor)
  : list funsor * list funsor :=
  if decide (model_measure_vars ∩ input_names f ≠ ∅)
  then (acc.1 ++ [f], acc.2)
  else (acc.1, acc.2 ++ [f]).

Definition split_factors (model_measure_vars : gset name) (fs : list funsor)
  : list funsor * list funsor :=
  foldl (split_step model_measure_vars) ([], []) fs.

(** Lines 63 to 77: the arguments handed to [partial_sum_product] for one
    group of the partition. *)
Record psp_call : Type := {
  call_factors : list funsor;
  call_plates : gset name;
  call_eliminate : gset name
}.

Definition group_plates_of (model_terms : terms) (group_factors : list funsor)
  : gset name :=
  let group_factor_vars := frozenset_union (input_names <$> group_factors) in
  plate_vars model_terms ∩ group_factor_vars.

Definition outermost_plates_of (model_terms : terms)
    (group_factors : list funsor) : result (gset name) :=
  let group_plates := group_plates_of model_terms group_factors in
  frozenset_intersection
    ((fun f => input_names f ∩ group_plates) <$> group_factors).

Definition group_call (model_terms : terms)
    (group : list funsor * gset name) : result psp_call :=
  let group_factors := group.1 in
  let group_vars := group.2 in
  let group_plates := group_plates_of model_terms group_factors in
  outermost_plates ← outermost_plates_of model_terms group_factors;
  let elim_plates := group_plates ∖ outermost_plates in
  Ok {| call_factors := group_factors;
        call_plates := group_plates;
        call_eliminate := group_vars ∪ elim_plates |}.

Section Method.
Context `{FunsorLib}.

(** Lines 71 to 78: each factor that comes back is multiplied by the scale. *)
Definition contract_group (model_terms : terms)
    (group : list funsor * gset name) : result (list funsor) :=
  c ← group_call model_terms group;
  Ok ((fun f => Binary Mul (scale model_terms) f) <$>
        partial_sum_product Logaddexp Add
          (call_factors c) (call_plates c) (call_eliminate c)).

Definition contract_step (model_terms : terms) (contracted_costs : list funsor)
    (group : list funsor * gset name) : result (list funsor) :=
  cs ← contract_group model_terms group;
  Ok (contracted_costs ++ cs).

(** Lines 57 to 78. *)
Definition contracted_costs_of (guide_terms model_terms : terms)
  : result (list funsor) :=
  let model_measure_vars := model_measure_vars_of guide_terms model_terms in
  let contracted_factors :=
    (split_factors model_measure_vars (log_factors model_terms)).1 in
  fold_result (contract_step model_terms) []
    (_partition (log_measures model_terms ++ contracted_factors)
       (measure_vars model_terms)).

(** Lines 81 and 82. *)
Definition costs_of (guide_terms model_terms : terms) : result (list funsor) :=
  let model_measure_vars := model_measure_vars_of guide_terms model_terms in
  let uncontracted_factors :=
    (split_factors model_measure_vars (log_factors model_terms)).2 in
  contracted_costs ← contracted_costs_of guide_terms model_terms;
  let costs := contracted_costs ++ uncontracted_factors in
  Ok (costs ++ (Unary Neg <$> log_factors guide_terms)).

End Method.

(** Lines 86 to 97. *)
Definition targets_step (targets : dict) (cost : funsor) : dict :=
  match dict_get targets (input_vars cost) with
  | Some _ => targets
  | None => targets ++ [(input_vars cost, Constant (inputs cost) Zeros)]
  end.

Definition targets_of (costs : list funsor) : dict :=
  foldl targets_step [] costs.

Section Forward.
Context `{FunsorLib}.

(** Lines 99 to 106. *)
Definition logzq_of (self : ELBO) (guide_terms model_terms : terms)
    (targets : dict) : funsor :=
  let plate_vars := plate_vars_of self guide_terms model_terms in
  apply_optimizer
    (sum_product Logaddexp Add
       (log_measures guide_terms ++ dict_values targets)
       plate_vars
       (plate_vars ∪ measure_vars guide_terms)).

(** Lines 114 to 125: the body of the integration loop. *)
Definition measure_vars_of_cost (plate_vars particle_var : gset name)
    (cost : funsor) : gset name :=
  (input_names cost ∖ plate_vars) ∖ particle_var.

Definition elbo_step (targets : dict) (marginals : funsor -> result funsor)
    (plate_vars particle_var : gset name) (elbo cost : funsor)
  : result funsor :=
  target ← dict_getitem targets (input_vars cost);
  log_measure ← marginals target;
  let measure_vars := measure_vars_of_cost plate_vars particle_var cost in
  let elbo_term := Integrate log_measure cost measure_vars in
  reduced ← reduce Add elbo_term (plate_vars ∩ input_names cost);
  Ok (Binary Add elbo reduced).

(** Lines 36 to 129. *)
Definition loss_from_terms (self : ELBO) (guide_terms model_terms : terms)
  : result data :=
  let particle_var := particle_var_of self in
  let plate_vars := plate_vars_of self guide_terms model_terms in
  costs ← costs_of guide_terms model_terms;
  let targets := targets_of costs in
  let logzq := logzq_of self guide_terms model_terms targets in
  let marginals := adjoint Logaddexp Add logzq in
  elbo ← fold_result (elbo_step targets marginals plate_vars particle_var)
           (Number 0) costs;
  elbo ← reduce Mean elbo particle_var;
  Ok (neg_data (to_data (apply_optimizer elbo))).

(** Lines 22 to 129. *)
Definition differentiable_loss (self : ELBO) (prog : program) : result data :=
  hs ← contexts self;
  gm ← get_terms hs prog;
  loss_from_terms self gm.1 gm.2.

End Forward.

(** ** A symbolic instance of the library

    The examples below run the method against this instance.  It keeps every
    factor in one group, contracts a group into one lazy term, and answers the
    marginal of a target from the table [table], raising [KeyError] for a
    target the table does not hold.  Its [reduce] returns the funsor for no
    variable, raises for a variable that is not an input, and builds a lazy
    [Reduce] node otherwise (the term funsor itself builds for a mean is not
    modelled).  A plate is entered when its dimension is a negative integer.
    A program is the pair of bundles its traces yield. *)

Definition lazy_reduce (o : op) (f : funsor) (vs : gset name) : funsor :=
  if decide (vs = ∅) then f else Reduce o f vs.

Definition combine_all (o : op) (fs : list funsor) : funsor :=
  match fs with
  | [] => Number 0
  | f :: fs' => foldl (Binary o) f fs'
  end.

Definition integer_dims (hs : list handler) : bool :=
  forallb (fun h => match h with plate _ _ DimNegInf => false | _ => true end) hs.

Definition symbolic_lib (table : funsor -> option funsor) : FunsorLib := {|
  program := terms * terms;
  data := funsor;
  enter h :=
    match h with
    | plate _ _ (DimInt d) =>
        if decide (d < 0)%Z then Ok tt
        else Raise (LibraryError "plate dimension is not negative")
    | plate _ _ DimNegInf =>
        Raise (LibraryError "plate dimension is not an integer")
    | _ => Ok tt
    end;
  get_terms hs prog :=
    if integer_dims hs then Ok prog
    else Raise (LibraryError "plate dimension is not an integer");
  _partition fs vs :=
    match fs with
    | [] => []
    | _ => [(fs, vs ∩ frozenset_union (input_names <$> fs))]
    end;
  partial_sum_product sum_op prod_op fs plates eliminate :=
    [lazy_reduce sum_op (combine_all prod_op fs) eliminate];
  sum_product sum_op prod_op fs plates eliminate :=
    lazy_reduce sum_op (combine_all prod_op fs) eliminate;
  apply_optimizer f := f;
  adjoint sum_op prod_op root target :=
    match table target with
    | Some m => Ok m
    | None => Raise (KeyError target)
    end;
  reduce o f vs :=
    if decide (vs = ∅) then Ok f
    else if decide (vs ⊆ input_names f) then Ok (Reduce o f vs)
    else Raise (LibraryError "reduced variable is not an input");
  to_data f := f;
  neg_data := Unary Neg
|}.

(** ** Example bundles

    A model with a latent [aux] that the guide does not have, observed inside
    a plate [data], and a latent [z] that it shares with the guide. *)

Definition p_aux : funsor := Tensor "p_aux" [("aux", Bint 2)].
Definition p_obs : funsor := Tensor "p_obs" [("aux", Bint 2); ("data", Bint 3)].
Definition p_z : funsor := Tensor "p_z" [("z", Real)].
Definition q_z : funsor := Tensor "q_z" [("z", Real)].
Definition m_z : funsor := Tensor "m_z" [("z", Real)].

Definition ex_model : terms := {|
  log_factors := [p_z; p_obs];
  log_measures := [p_aux];
  measure_vars := {["aux"]};
  plate_vars := {["data"]};
  scale := Number 2
|}.

Definition ex_guide : terms := {|
  log_factors := [q_z];
  log_measures := [m_z];
  measure_vars := {["z"]};
  plate_vars := ∅;
  scale := Number 1
|}.

Definition ex_group : list funsor * gset name := ([p_aux; p_obs], {["aux"]}).

(** A marginal table that answers every probe, for the examples. *)
Definition all_marginals (target : funsor) : option funsor :=
  match target with
  | Constant ins _ => Some (Tensor "marginal" ins)
  | _ => None
  end.

Definition one_particle : ELBO :=
  {| num_particles := 1; max_plate_nesting := NestInt 0 |}.

Definition two_particles (n : nesting) : ELBO :=
  {| num_particles := 2; max_plate_nesting := n |}.

(** ** Reference functions for the probe map *)

(** The first cost term, in list order, whose signature is [k]. *)
Fixpoint first_with_signature (k : gset (name * domain)) (costs : list funsor)
  : option funsor :=
  match costs with
  | [] => None
  | c :: costs' =>
      if decide (input_vars c = k) then Some c else first_with_signature k costs'
  end.

(** A model whose only latent is the one it shares with the guide. *)
Definition ex_model_shared : terms := {|
  log_factors := [p_z];
  log_measures := [];
  measure_vars := ∅;
  plate_vars := ∅;
  scale := Number 1
|}.

(** The contracted cost of [ex_model] under the symbolic instance. *)
Definition ex_contracted_cost : funsor :=
  Binary Mul (Number 2)
    (Reduce Logaddexp (Binary Add p_aux p_obs)
       (({["aux"]} : gset name) ∪ {["data"]})).

(** Two particles: every factor of the traces carries the particle plate;
    the observation [p_x] lies in the plate [data] as well. *)
Definition particles : name * domain := ("num_particles_vectorized", Bint 2).

Definition p_z2 : funsor := Tensor "p_z" [particles; ("z", Real)].
Definition p_x2 : funsor :=
  Tensor "p_x" [particles; ("data", Bint 3); ("z", Real)].
Definition q_z2 : funsor := Tensor "q_z" [particles; ("z", Real)].
Definition m_z2 : funsor := Tensor "m_z" [particles; ("z", Real)].

Definition ex_model2 : terms := {|
  log_factors := [p_z2; p_x2];
  log_measures := [];
  measure_vars := ∅;
  plate_vars := {["num_particles_vectorized"; "data"]};
  scale := Number 1
|}.

Definition ex_guide2 : terms := {|
  log_factors := [q_z2];
  log_measures := [m_z2];
  measure_vars := {["z"]};
  plate_vars := {["num_particles_vectorized"]};
  scale := Number 1
|}.

(** ** Auxiliary facts about the Python helpers *)

Lemma bind_Ok {A B} (a : A) (k : A -> result B) : Ok a ≫= k = k a.
Proof. reflexivity. Qed.

Lemma bind_Raise {A B} (e : exn) (k : A -> result B) : Raise e ≫= k = Raise e.
Proof. reflexivity. Qed.

Lemma bind_Ok_inv {A B} (r : result A) (k : A -> result B) (b : B) :
  r ≫= k = Ok b → ∃ a, r = Ok a ∧ k a = Ok b.
Proof. destruct r as [a|e]; [eauto|done]. Qed.

Lemma fold_result_cons {A B} (body : B -> A -> result B) acc x l :
  fold_result body acc (x :: l) =
  body acc x ≫= fun acc' => fold_result body acc' l.
Proof. reflexivity. Qed.

Lemma fold_result_app {A B} (body : B -> A -> result B) acc l1 l2 :
  fold_result body acc (l1 ++ l2) =
  acc' ← fold_result body acc l1; fold_result body acc' l2.
Proof.
  revert acc. induction l1 as [|x l1 IH]; intros acc; simpl; [done|].
  destruct (body acc x) as [acc'|e]; simpl; [apply IH|done].
Qed.

Lemma elem_of_frozenset_union_acc (xs : list (gset name)) (acc : gset name) p :
  p ∈ foldl (∪) acc xs ↔ p ∈ acc ∨ ∃ x, x ∈ xs ∧ p ∈ x.
Proof.
  revert acc. induction xs as [|x xs IH]; intros acc; simpl.
  - split; [auto|]. intros [?|(x & Hx & _)]; [done|]. by apply elem_of_nil in Hx.
  - rewrite IH. split.
    + intros [[?|?]%elem_of_union|(y & Hy & Hp)]; [by left| |].
      * right. exists x. split; [left|done].
      * right. exists y. split; [by right|done].
    + intros [?|(y & Hy & Hp)]; [left; apply elem_of_union; by left|].
      apply elem_of_cons in Hy as [->|Hy]; [left; apply elem_of_union; by right|].
      right. eauto.
Qed.

Lemma elem_of_frozenset_union (xs : list (gset name)) p :
  p ∈ frozenset_union xs ↔ ∃ x, x ∈ xs ∧ p ∈ x.
Proof.
  unfold frozenset_union. rewrite elem_of_frozenset_union_acc.
  split; [intros [Hp|?]; [by apply elem_of_empty in Hp|done]|by right].
Qed.

Lemma elem_of_foldl_intersection (xs : list (gset name)) (acc : gset name) p :
  p ∈ foldl (∩) acc xs ↔ p ∈ acc ∧ ∀ x, x ∈ xs → p ∈ x.
Proof.
  revert acc. induction xs as [|x xs IH]; intros acc; simpl.
  - split; [|by intros []]. intros ?. split; [done|].
    intros x Hx. by apply elem_of_nil in Hx.
  - rewrite IH. split.
    + intros [[??]%elem_of_intersection Hall]. split; [done|].
      intros y [->|Hy]%elem_of_cons; auto.
    + intros [? Hall]. split.
      * apply elem_of_intersection. split; [done|]. apply Hall. left.
      * intros y Hy. apply Hall. by right.
Qed.

Lemma frozenset_intersection_ok (xs : list (gset name)) :
  xs ≠ [] →
  ∃ s, frozenset_intersection xs = Ok s ∧ ∀ p, p ∈ s ↔ ∀ x, x ∈ xs → p ∈ x.
Proof.
  destruct xs as [|x xs]; [done|]. intros _. eexists. split; [done|].
  intros p. rewrite elem_of_foldl_intersection. split.
  - intros [? Hall] y [->|Hy]%elem_of_cons; auto.
  - intros Hall. split; [apply Hall; left|]. intros y Hy. apply Hall. by right.
Qed.

Lemma split_factors_acc (mmv : gset name) (fs : list funsor) acc :
  foldl (split_step mmv) acc fs =
  (acc.1 ++ filter (fun f => mmv ∩ input_names f ≠ ∅) fs,
   acc.2 ++ filter (fun f => mmv ∩ input_names f = ∅) fs).
Proof.
  revert acc. induction fs as [|f fs IH]; intros [c u]; simpl.
  - by rewrite !app_nil_r.
  - rewrite IH. unfold split_step. simpl.
    rewrite !filter_cons.
    destruct (decide (mmv ∩ input_names f ≠ ∅)) as [Hne|Heq]; simpl.
    + rewrite decide_False by done. by rewrite <- app_assoc.
    + rewrite decide_True by (by destruct (decide (mmv ∩ input_names f = ∅))).
      by rewrite <- app_assoc.
Qed.

Lemma split_factors_filter (mmv : gset name) (fs : list funsor) :
  split_factors mmv fs =
  (filter (fun f => mmv ∩ input_names f ≠ ∅) fs,
   filter (fun f => mmv ∩ input_names f = ∅) fs).
Proof. unfold split_factors. by rewrite split_factors_acc. Qed.

Lemma elem_of_group_plates (model_terms : terms) (group_factors : list funsor) p :
  p ∈ group_plates_of model_terms group_factors ↔
  p ∈ plate_vars model_terms ∧ ∃ f, f ∈ group_factors ∧ p ∈ input_names f.
Proof.
  unfold group_plates_of. rewrite elem_of_intersection, elem_of_frozenset_union.
  split; intros [Hp Hex]; (split; [done|]).
  - destruct Hex as (x & (f & -> & Hf)%list_elem_of_fmap & Hx). eauto.
  - destruct Hex as (f & Hf & Hx). exists (input_names f). split; [|done].
    apply list_elem_of_fmap. eauto.
Qed.

Lemma outermost_plates_ok (model_terms : terms) (group_factors : list funsor) :
  group_factors ≠ [] →
  ∃ outer,
    outermost_plates_of model_terms group_factors = Ok outer ∧
    ∀ p, p ∈ outer ↔
         ∀ f, f ∈ group_factors →
              p ∈ input_names f ∧ p ∈ group_plates_of model_terms group_factors.
Proof.
  intros Hne. unfold outermost_plates_of.
  destruct (frozenset_intersection_ok
              ((fun f => input_names f ∩ group_plates_of model_terms group_factors)
                 <$> group_factors)) as (outer & Hok & Hmem).
  { by destruct group_factors. }
  exists outer. split; [done|]. intros p. rewrite Hmem. split.
  - intros Hall f Hf. apply elem_of_intersection, Hall, list_elem_of_fmap. eauto.
  - intros Hall x (f & -> & Hf)%list_elem_of_fmap.
    apply elem_of_intersection. auto.
Qed.

Lemma group_call_empty (model_terms : terms) (group_vars : gset name) :
  ∃ msg, group_call model_terms ([], group_vars) = Raise (TypeError msg).
Proof. eexists. reflexivity. Qed.

(** ** The partial elimination of one group *)

(** C3. For a group of the partition, the plates handed to
    [partial_sum_product] are the model's plate variables that occur in the
    group; the outer plates are the intersection, over every factor of the
    group, of the factor's inputs with those plates; the local plates are the
    plates minus the outer ones; the eliminated set is exactly the group's
    elimination variables together with the local plates.  No outer plate is
    eliminated as a plate: an outer plate is in the eliminated set only if it
    is one of the group's elimination variables, so none is when these are
    not plates. *)
Theorem group_elimination_sets `{FunsorLib} (model_terms : terms)
    (group_factors : list funsor) (group_vars : gset name) :
  group_factors ≠ [] →
  ∃ outer c,
    outermost_plates_of model_terms group_factors = Ok outer ∧
    group_call model_terms (group_factors, group_vars) = Ok c ∧
    contract_group model_terms (group_factors, group_vars) =
      Ok ((fun f => Binary Mul (scale model_terms) f) <$>
            partial_sum_product Logaddexp Add group_factors
              (call_plates c) (call_eliminate c)) ∧
    (∀ p, p ∈ call_plates c ↔
          p ∈ plate_vars model_terms ∧
          ∃ f, f ∈ group_factors ∧ p ∈ input_names f) ∧
    (∀ p, p ∈ outer ↔
          ∀ f, f ∈ group_factors → p ∈ input_names f ∧ p ∈ call_plates c) ∧
    call_eliminate c = group_vars ∪ (call_plates c ∖ outer) ∧
    (∀ p, p ∈ outer → p ∈ call_eliminate c → p ∈ group_vars) ∧
    (group_vars ## plate_vars model_terms → outer ## call_eliminate c).
Proof.
  intros Hne.
  destruct (outermost_plates_ok model_terms group_factors Hne)
    as (outer & Hok & Hmem).
  exists outer.
  exists {| call_factors := group_factors;
            call_plates := group_plates_of model_terms group_factors;
            call_eliminate :=
              group_vars ∪ (group_plates_of model_terms group_factors ∖ outer) |}.
  assert (Hcall : group_call model_terms (group_factors, group_vars) =
                  Ok {| call_factors := group_factors;
                        call_plates := group_plates_of model_terms group_factors;
                        call_eliminate :=
                          group_vars ∪
                          (group_plates_of model_terms group_factors ∖ outer) |}).
  { unfold group_call. simpl. by rewrite Hok. }
  split; [done|]. split; [done|]. split.
  { unfold contract_group. by rewrite Hcall. }
  simpl. split; [apply elem_of_group_plates|]. split; [done|].
  split; [done|]. split.
  - intros p Hp [?|[_ Hn]%elem_of_difference]%elem_of_union; [done|].
    by destruct Hn.
  - intros Hdisj p Hp [Hv|[_ Hn]%elem_of_difference]%elem_of_union.
    + apply (Hdisj p Hv).
      destruct group_factors as [|f fs]; [done|].
      destruct (proj1 (Hmem p) Hp f) as [_ Hg]; [left|].
      by apply elem_of_group_plates in Hg as [? _].
    + by destruct Hn.
Qed.

Lemma group_elimination_sets_witness :
  ex_group.1 ≠ [] ∧
  ∃ outer c,
    outermost_plates_of ex_model ex_group.1 = Ok outer ∧
    group_call ex_model ex_group = Ok c ∧
    call_eliminate c = {["aux"]} ∪ (call_plates c ∖ outer) ∧
    outer ## call_eliminate c.
Proof.
  split; [done|].
  destruct (@group_elimination_sets (symbolic_lib (fun _ => None))
              ex_model ex_group.1 ex_group.2)
    as (outer & c & H1 & H2 & _ & _ & _ & H3 & _ & H4); [done|].
  exists outer, c. repeat split; try done.
  apply H4. simpl. apply disjoint_singleton_l. by intros ?%elem_of_singleton.
Defined.

(** ** The cost list *)

Lemma contract_loop_spec `{FunsorLib} (model_terms : terms)
    (groups : list (list funsor * gset name)) (acc cs : list funsor) :
  fold_result (contract_step model_terms) acc groups = Ok cs ↔
  ∃ group_costs,
    Forall2 (fun g gc => contract_group model_terms g = Ok gc) groups group_costs ∧
    cs = acc ++ concat group_costs.
Proof.
  revert acc. induction groups as [|g groups IH]; intros acc.
  - simpl. split.
    + intros [= <-]. exists []. split; [constructor|]. by rewrite app_nil_r.
    + intros (gcs & Hall & ->). apply Forall2_nil_inv_l in Hall as ->.
      simpl. by rewrite app_nil_r.
  - rewrite fold_result_cons.
    destruct (contract_group model_terms g) as [gc|e] eqn:Hg.
    + replace (contract_step model_terms acc g) with (Ok (A:=list funsor) (acc ++ gc))
        by (unfold contract_step; by rewrite Hg).
      rewrite bind_Ok, IH. split.
      * intros (gcs & Hall & ->). exists (gc :: gcs). split; [by constructor|].
        simpl. by rewrite app_assoc.
      * intros (gcs & Hall & ->).
        apply Forall2_cons_inv_l in Hall as (gc' & gcs' & Hgc & Hall & ->).
        rewrite Hg in Hgc. injection Hgc as <-.
        exists gcs'. split; [done|]. simpl. by rewrite app_assoc.
    + replace (contract_step model_terms acc g) with (Raise (A:=list funsor) e)
        by (unfold contract_step; by rewrite Hg).
      rewrite bind_Raise. split; [done|]. intros (gcs & Hall & _).
      apply Forall2_cons_inv_l in Hall as (gc' & gcs' & Hgc & _).
      by rewrite Hg in Hgc.
Qed.

Lemma filter_split_Permutation (mmv : gset name) (fs : list funsor) :
  fs ≡ₚ filter (fun f => mmv ∩ input_names f ≠ ∅) fs ++
        filter (fun f => mmv ∩ input_names f = ∅) fs.
Proof.
  induction fs as [|f fs IH]; [done|]. rewrite !filter_cons.
  destruct (decide (mmv ∩ input_names f = ∅)) as [Heq|Hne].
  - rewrite decide_False by (by intros Hn). rewrite <- Permutation_middle.
    by constructor.
  - rewrite decide_True by done. simpl. by constructor.
Qed.

(** Without model-only measure variables no model log-factor is sent to
    partial elimination: the partition sees the model's log-measures alone
    and every model log-factor is a cost as it stands. *)
Lemma split_factors_no_model_only (guide_terms model_terms : terms) :
  measure_vars model_terms ⊆ measure_vars guide_terms →
  split_factors (model_measure_vars_of guide_terms model_terms)
    (log_factors model_terms) = ([], log_factors model_terms).
Proof.
  intros Hsub. rewrite split_factors_filter.
  assert (Hempty : model_measure_vars_of guide_terms model_terms = ∅).
  { unfold model_measure_vars_of. apply set_eq. intros v.
    rewrite elem_of_difference. split; [|by intros ?%elem_of_empty].
    intros [Hm Hg]. destruct Hg. by apply Hsub. }
  rewrite Hempty. f_equal.
  - induction (log_factors model_terms) as [|f fs IH]; [done|].
    rewrite filter_cons, decide_False; [done|].
    intros Hne. apply Hne. apply set_eq. intros v.
    rewrite elem_of_intersection. split; [by intros [?%elem_of_empty _]|].
    by intros ?%elem_of_empty.
  - induction (log_factors model_terms) as [|f fs IH]; [done|].
    rewrite filter_cons, decide_True; [by rewrite IH|].
    apply set_eq. intros v.
    rewrite elem_of_intersection. split; [by intros [?%elem_of_empty _]|].
    by intros ?%elem_of_empty.
Qed.

Lemma group_call_spec (model_terms : terms) (group : list funsor * gset name)
    (c : psp_call) :
  group_call model_terms group = Ok c →
  call_factors c = group.1 ∧
  (∀ p, p ∈ call_plates c ↔
        p ∈ plate_vars model_terms ∧ ∃ f, f ∈ group.1 ∧ p ∈ input_names f) ∧
  (∀ p, p ∈ call_eliminate c ↔
        p ∈ group.2 ∨
        (p ∈ call_plates c ∧ ∃ f, f ∈ group.1 ∧ p ∉ input_names f)).
Proof.
  intros Hcall. unfold group_call in Hcall.
  apply bind_Ok_inv in Hcall as (outer & Hout & [= <-]). simpl.
  assert (Hne : group.1 ≠ []).
  { intros Hnil. unfold outermost_plates_of in Hout. by rewrite Hnil in Hout. }
  destruct (outermost_plates_ok model_terms group.1 Hne) as (outer' & Hok & Hmem).
  rewrite Hout in Hok. injection Hok as <-.
  split; [done|]. split; [apply elem_of_group_plates|].
  intros p. rewrite elem_of_union, elem_of_difference, Hmem. split.
  - intros [?|[Hgp Hnall]]; [by left|right]. split; [done|].
    destruct (decide (Exists (fun f => p ∉ input_names f) group.1))
      as [Hex|Hnex].
    + apply Exists_exists in Hex as (f & ? & ?). eauto.
    + destruct Hnall. intros f Hf. split; [|done].
      destruct (decide (p ∈ input_names f)) as [|Hnp]; [done|].
      destruct Hnex. apply Exists_exists. eauto.
  - intros [?|(Hgp & f & Hf & Hnp)]; [by left|right].
    split; [done|]. intros Hall. by destruct (Hall f Hf).
Qed.

(** C8. The cost list is the contracted costs, then the model log-factors
    that pass through unchanged, then the negated guide log-factors.  A model
    log-factor is sent to partial elimination (together with the model's
    log-measures) exactly when its inputs meet the model-only measure
    variables, and passes through otherwise; every model log-factor goes one
    of the two ways.  The contracted costs are, group by group of the
    partition and in order, the scale times each factor that
    [partial_sum_product] returns for the group's factors, with the model
    plates that occur in the group as plates and with the group's variables
    and the plates some factor of the group lacks eliminated. *)
Theorem costs_signed_split `{FunsorLib} (guide_terms model_terms : terms)
    (costs : list funsor) :
  costs_of guide_terms model_terms = Ok costs →
  let model_only := measure_vars model_terms ∖ measure_vars guide_terms in
  let contracted_factors :=
    filter (fun f => model_only ∩ input_names f ≠ ∅) (log_factors model_terms) in
  let uncontracted_factors :=
    filter (fun f => model_only ∩ input_names f = ∅) (log_factors model_terms) in
  ∃ group_costs : list (list funsor),
    Forall2
      (fun (g : list funsor * gset name) (gc : list funsor) =>
         ∃ plates eliminate : gset name,
           (∀ p, p ∈ plates ↔
                 p ∈ plate_vars model_terms ∧
                 ∃ f, f ∈ g.1 ∧ p ∈ input_names f) ∧
           (∀ p, p ∈ eliminate ↔
                 p ∈ g.2 ∨ (p ∈ plates ∧ ∃ f, f ∈ g.1 ∧ p ∉ input_names f)) ∧
           gc = (fun f => Binary Mul (scale model_terms) f) <$>
                  partial_sum_product Logaddexp Add g.1 plates eliminate)
      (_partition (log_measures model_terms ++ contracted_factors)
         (measure_vars model_terms))
      group_costs ∧
    log_factors model_terms ≡ₚ contracted_factors ++ uncontracted_factors ∧
    costs = concat group_costs ++ uncontracted_factors ++
            (Unary Neg <$> log_factors guide_terms).
Proof.
  intros Hcosts. simpl. unfold costs_of in Hcosts.
  destruct (contracted_costs_of guide_terms model_terms) as [cc|e] eqn:Hcc;
    [|done].
  simpl in Hcosts. injection Hcosts as <-.
  unfold contracted_costs_of, model_measure_vars_of in Hcc.
  rewrite split_factors_filter in Hcc. simpl in Hcc.
  apply contract_loop_spec in Hcc as (gcs & Hall & ->).
  exists gcs. split; [|split; [apply filter_split_Permutation|]].
  - eapply Forall2_impl; [exact Hall|]. intros g gc Hg. simpl in Hg.
    unfold contract_group in Hg.
    apply bind_Ok_inv in Hg as (c & Hc & [= <-]).
    destruct (group_call_spec model_terms g c Hc) as (Hf & Hpl & Hel).
    exists (call_plates c), (call_eliminate c).
    split; [done|]. split; [done|]. by rewrite Hf.
  - unfold model_measure_vars_of. rewrite split_factors_filter. simpl.
    by rewrite <- app_assoc.
Qed.

Lemma costs_signed_split_witness :
  @costs_of (symbolic_lib (fun _ => None)) ex_guide ex_model =
    Ok [ex_contracted_cost; p_z; Unary Neg q_z] ∧
  ∃ plates eliminate : gset name,
    "data" ∈ plates ∧ "data" ∈ eliminate ∧ "aux" ∈ eliminate ∧
    [ex_contracted_cost] =
      (fun f => Binary Mul (Number 2) f) <$>
        @partial_sum_product (symbolic_lib (fun _ => None)) Logaddexp Add
          [p_aux; p_obs] plates eliminate.
Proof.
  assert (Hcosts : @costs_of (symbolic_lib (fun _ => None)) ex_guide ex_model =
                   Ok [ex_contracted_cost; p_z; Unary Neg q_z]).
  { vm_compute. reflexivity. }
  split; [exact Hcosts|].
  destruct (@costs_signed_split (symbolic_lib (fun _ => None))
              ex_guide ex_model _ Hcosts) as (gcs & Hall & _ & Heq).
  assert (Hpart : @_partition (symbolic_lib (fun _ => None))
                    (log_measures ex_model ++
                     filter (fun f => (measure_vars ex_model ∖ measure_vars ex_guide)
                                      ∩ input_names f ≠ ∅) (log_factors ex_model))
                    (measure_vars ex_model) =
                  [([p_aux; p_obs], ({["aux"]} : gset name))]).
  { vm_compute. reflexivity. }
  rewrite Hpart in Hall.
  apply Forall2_cons_inv_l in Hall as (gc & gcs' & (pl & el & Hpl & Hel & Hgc) & Hrest & ->).
  apply Forall2_nil_inv_l in Hrest as ->.
  assert (Hunc : filter (fun f => (measure_vars ex_model ∖ measure_vars ex_guide)
                                  ∩ input_names f = ∅) (log_factors ex_model) =
                 [p_z]).
  { vm_compute. reflexivity. }
  rewrite Hunc in Heq. simpl in Heq. rewrite app_nil_r in Heq.
  assert (Hgc' : gc = [ex_contracted_cost]).
  { apply (app_inv_tail [p_z; Unary Neg q_z]). symmetry. exact Heq. }
  exists pl, el.
  assert (Hdata : "data" ∈ pl).
  { apply Hpl. split; [vm_compute; reflexivity|].
    exists p_obs. split; [right; left|vm_compute; reflexivity]. }
  split; [done|]. split; [|split].
  - apply Hel. right. split; [done|]. exists p_aux. split; [left|].
    vm_compute. discriminate.
  - apply Hel. left. vm_compute. reflexivity.
  - by rewrite <- Hgc', Hgc.
Defined.

(** C2 (as amended). Every factor that the sum-product elimination of a
    group returns enters the contracted costs multiplied by the bundle's
    scale: the cost is the product [scale * f] of the scale and the
    log-factor, not their sum. *)
Theorem contracted_costs_scaled `{FunsorLib} (guide_terms model_terms : terms)
    (contracted_costs : list funsor) :
  contracted_costs_of guide_terms model_terms = Ok contracted_costs →
  ∃ eliminated : list (list funsor),
    Forall2
      (fun g fs => ∃ c, group_call model_terms g = Ok c ∧
                        fs = partial_sum_product Logaddexp Add
                               (call_factors c) (call_plates c) (call_eliminate c))
      (_partition
         (log_measures model_terms ++
          (split_factors (model_measure_vars_of guide_terms model_terms)
             (log_factors model_terms)).1)
         (measure_vars model_terms))
      eliminated ∧
    contracted_costs =
      (fun f => Binary Mul (scale model_terms) f) <$> concat eliminated ∧
    ∀ rho,
      Forall2 (fun cost f =>
                 eval rho cost = (eval rho (scale model_terms) * eval rho f)%Z)
        contracted_costs (concat eliminated).
Proof.
  intros Hcc. unfold contracted_costs_of in Hcc.
  apply contract_loop_spec in Hcc as (gcs & Hall & ->). simpl.
  revert Hall.
  generalize (_partition
                (log_measures model_terms ++
                 (split_factors (model_measure_vars_of guide_terms model_terms)
                    (log_factors model_terms)).1)
                (measure_vars model_terms)).
  intros groups Hall.
  assert (∃ eliminated : list (list funsor),
             Forall2
               (fun g fs => ∃ c, group_call model_terms g = Ok c ∧
                                 fs = partial_sum_product Logaddexp Add
                                        (call_factors c) (call_plates c)
                                        (call_eliminate c))
               groups eliminated ∧
             gcs = (fun fs : list funsor => (fun f => Binary Mul (scale model_terms) f) <$> fs)
                     <$> eliminated)
    as (el & Hel & ->).
  { induction Hall as [|g gc groups gcs Hg _ (el & Hel & ->)].
    - exists []. split; [constructor|done].
    - unfold contract_group in Hg.
      destruct (group_call model_terms g) as [c|e] eqn:Hc; [|done].
      simpl in Hg. injection Hg as <-.
      eexists (_ :: el). split; [constructor; [eauto|done]|done]. }
  exists el. split; [done|].
  assert (Heq : concat ((fun fs : list funsor => (fun f => Binary Mul (scale model_terms) f) <$> fs)
                          <$> el) =
                (fun f => Binary Mul (scale model_terms) f) <$> concat el).
  { clear. induction el as [|x el IH]; [done|]. simpl.
    rewrite fmap_app. f_equal. exact IH. }
  rewrite Heq. split; [done|]. intros rho.
  apply Forall2_fmap_l, Forall_Forall2_diag, Forall_forall. by intros f _.
Qed.

Lemma contracted_costs_scaled_witness :
  ∃ f, @contracted_costs_of (symbolic_lib (fun _ => None)) ex_guide ex_model =
         Ok [Binary Mul (Number 2) f] ∧
       ∀ rho, eval rho (Binary Mul (Number 2) f) = (2 * eval rho f)%Z.
Proof.
  destruct (@contracted_costs_of (symbolic_lib (fun _ => None)) ex_guide ex_model)
    as [cc|e] eqn:Hcc; [|by vm_compute in Hcc].
  destruct (@contracted_costs_scaled (symbolic_lib (fun _ => None))
              ex_guide ex_model cc Hcc) as (el & _ & _ & _).
  vm_compute in Hcc. injection Hcc as <-.
  eexists. split; [reflexivity|]. intros rho. reflexivity.
Defined.

(** C2 (as stated) fails: with scale 2 and an eliminated factor of
    log-value 3 the contracted cost has value 6, while adding the scale to
    the log-factor would give 5. *)
Lemma scale_added_counterexample :
  ¬ (∀ c cs rho,
       group_call ex_model ex_group = Ok c →
       @contract_group (symbolic_lib (fun _ => None)) ex_model ex_group = Ok cs →
       Forall2 (fun cost f =>
                  eval rho cost = (eval rho (scale ex_model) + eval rho f)%Z)
         cs
         (@partial_sum_product (symbolic_lib (fun _ => None)) Logaddexp Add
            (call_factors c) (call_plates c) (call_eliminate c))).
Proof.
  intros Hclaim.
  specialize (Hclaim _ _ (fun _ => 3%Z) eq_refl eq_refl).
  vm_compute in Hclaim.
  apply Forall2_cons_1 in Hclaim as [Hhead _]. discriminate Hhead.
Qed.

(** ** The probes *)

Lemma dict_get_Some_elem (d : dict) k v : dict_get d k = Some v → (k, v) ∈ d.
Proof.
  induction d as [|[k' v'] d IH]; simpl; [done|].
  destruct (decide (k = k')) as [->|Hne].
  - intros [= ->]. left.
  - intros Hd. right. by apply IH.
Qed.

Lemma dict_get_None_keys (d : dict) k : dict_get d k = None ↔ k ∉ d.*1.
Proof.
  induction d as [|[k' v'] d IH]; simpl.
  - split; [|done]. intros _ Hk. by apply elem_of_nil in Hk.
  - rewrite not_elem_of_cons. destruct (decide (k = k')) as [->|Hne].
    + split; [done|]. by intros [? _].
    + rewrite IH. split; [done|]. by intros [_ ?].
Qed.

Lemma dict_get_elem_NoDup (d : dict) k v :
  NoDup d.*1 → (k, v) ∈ d → dict_get d k = Some v.
Proof.
  induction d as [|[k' v'] d IH]; simpl.
  - intros _ Hk. by apply elem_of_nil in Hk.
  - intros Hnd' [Heq|Hin]%elem_of_cons;
      apply NoDup_cons in Hnd' as [Hnotin Hnd].
    + injection Heq as -> ->. by rewrite decide_True.
    + destruct (decide (k = k')) as [->|Hne]; [|by apply IH].
      destruct Hnotin. apply list_elem_of_fmap. by exists (k', v).
Qed.

Lemma dict_get_app (d1 d2 : dict) k :
  dict_get (d1 ++ d2) k =
  match dict_get d1 k with Some v => Some v | None => dict_get d2 k end.
Proof.
  induction d1 as [|[k' v'] d1 IH]; simpl; [done|].
  by destruct (decide (k = k')).
Qed.

Lemma targets_of_snoc (costs : list funsor) (cost : funsor) :
  targets_of (costs ++ [cost]) = targets_step (targets_of costs) cost.
Proof. unfold targets_of. by rewrite foldl_app. Qed.

Lemma inputs_probe (cost : funsor) :
  inputs (Constant (inputs cost) Zeros) = inputs cost.
Proof. simpl. unfold merge_inputs. simpl. by rewrite app_nil_r. Qed.

(** What the loop of lines 86 to 97 maintains. *)
Lemma targets_of_invariant (costs : list funsor) :
  NoDup (targets_of costs).*1 ∧
  (∀ k p, (k, p) ∈ targets_of costs →
          ∃ c, c ∈ costs ∧ input_vars c = k ∧ p = Constant (inputs c) Zeros) ∧
  (∀ c, c ∈ costs → is_Some (dict_get (targets_of costs) (input_vars c))).
Proof.
  induction costs as [|c costs (Hnd & Hprobe & Hall)] using rev_ind.
  - split; [constructor|]. split.
    + intros k p Hk. by apply elem_of_nil in Hk.
    + intros c Hc. by apply elem_of_nil in Hc.
  - rewrite targets_of_snoc. unfold targets_step.
    destruct (dict_get (targets_of costs) (input_vars c)) as [p|] eqn:Hget.
    + split; [done|]. split.
      * intros k q Hk. destruct (Hprobe k q Hk) as (c' & Hc' & Hrest).
        exists c'. split; [apply elem_of_app; by left|done].
      * intros c' [Hc' | ->%list_elem_of_singleton]%elem_of_app; [by apply Hall|].
        by rewrite Hget.
    + split; [|split].
      * rewrite fmap_app. apply NoDup_app. split; [done|]. split.
        -- intros k Hk ->%list_elem_of_singleton.
           by apply dict_get_None_keys in Hget.
        -- apply NoDup_singleton.
      * intros k q [Hk|Heq%list_elem_of_singleton]%elem_of_app.
        -- destruct (Hprobe k q Hk) as (c' & Hc' & Hrest).
           exists c'. split; [apply elem_of_app; by left|done].
        -- injection Heq as -> ->. exists c. split; [|done]. apply elem_of_app. right. left.
      * intros c' Hc'. rewrite dict_get_app.
        apply elem_of_app in Hc' as [Hc' | ->%list_elem_of_singleton].
        -- destruct (Hall c' Hc') as [q ->]. by eexists.
        -- rewrite Hget. simpl. rewrite decide_True by done. by eexists.
Qed.




(** ** The forward contraction *)

Lemma probes_NoDup (costs : list funsor) : NoDup (dict_values (targets_of costs)).
Proof.
  destruct (targets_of_invariant costs) as (Hnd & Hprobe & _).
  unfold dict_values.
  assert (Hkeys : (targets_of costs).*1 = input_vars <$> (targets_of costs).*2).
  { rewrite <- list_fmap_compose. apply list_fmap_ext.
    intros i [k p] Hkp. simpl.
    destruct (Hprobe k p) as (c & _ & <- & ->).
    { apply list_elem_of_lookup. eauto. }
    unfold input_vars. by rewrite inputs_probe. }
  rewrite Hkeys in Hnd. by apply NoDup_fmap_1 in Hnd.
Qed.

Lemma elem_of_probes (costs : list funsor) (p : funsor) :
  p ∈ dict_values (targets_of costs) ↔
  ∃ c, c ∈ costs ∧ dict_get (targets_of costs) (input_vars c) = Some p.
Proof.
  destruct (targets_of_invariant costs) as (Hnd & Hprobe & Hall).
  unfold dict_values. split.
  - intros ([k q] & -> & Hkq)%list_elem_of_fmap. simpl.
    destruct (Hprobe _ _ Hkq) as (c & Hc & <- & Hq).
    exists c. split; [done|]. by apply dict_get_elem_NoDup.
  - intros (c & _ & Hget). apply list_elem_of_fmap.
    exists (input_vars c, p). split; [done|]. by apply dict_get_Some_elem.
Qed.

(** Log-space combination with the probes: each probe has value zero, so the
    sum of the log-values of the factors of the forward contraction is the
    sum over the guide's log-measures.  (What [sum_product] then makes of the
    probes' variables is the library's matter.) *)
Lemma probes_combine_to_zero (rho : funsor -> Z) (costs measures : list funsor) :
  foldr Z.add 0%Z (eval rho <$> (measures ++ dict_values (targets_of costs))) =
  foldr Z.add 0%Z (eval rho <$> measures).
Proof.
  destruct (targets_of_invariant costs) as (_ & Hprobe & _).
  assert (Hzero : Forall (fun p => eval rho p = 0%Z) (dict_values (targets_of costs))).
  { apply Forall_forall. intros p ([k q] & -> & Hkq)%list_elem_of_fmap.
    by destruct (Hprobe _ _ Hkq) as (c & _ & _ & ->). }
  rewrite fmap_app, foldr_app.
  induction Hzero as [|p ps Hp _ IH]; [done|].
  csimpl. rewrite Hp. exact IH.
Qed.

(** C4 (as amended). The forward contraction is one [sum_product] call with
    reduce operator [logaddexp] and combine operator [add]; its factors are
    the guide's log-measures followed by the probes, one for each distinct
    signature of a cost term; it eliminates exactly the plate variables (the
    plates of guide and model without the particle plate) and the guide's
    measure variables.  The particle plate is eliminated only if it is a
    guide measure variable.  The plate variables a cost term carries are all
    eliminated, and a variable of a cost term that is not eliminated is the
    particle plate or one of the variables its integral ranges over. *)
Theorem forward_contraction_call `{FunsorLib} (self : ELBO)
    (guide_terms model_terms : terms) (costs : list funsor) :
  let plates :=
    (plate_vars guide_terms ∪ plate_vars model_terms) ∖ particle_var_of self in
  let eliminate := plates ∪ measure_vars guide_terms in
  let probes := dict_values (targets_of costs) in
  logzq_of self guide_terms model_terms (targets_of costs) =
    apply_optimizer
      (sum_product Logaddexp Add (log_measures guide_terms ++ probes)
         plates eliminate) ∧
  NoDup probes ∧
  (∀ p, p ∈ probes ↔
        ∃ c, c ∈ costs ∧ dict_get (targets_of costs) (input_vars c) = Some p) ∧
  (∀ v, v ∈ particle_var_of self → v ∈ eliminate → v ∈ measure_vars guide_terms) ∧
  (∀ cost, cost ∈ costs → plates ∩ input_names cost ⊆ eliminate) ∧
  (∀ cost v, cost ∈ costs → v ∈ input_names cost → v ∉ eliminate →
     v ∈ particle_var_of self ∨
     v ∈ measure_vars_of_cost plates (particle_var_of self) cost) ∧
  (∀ cost v, cost ∈ costs → v ∈ input_names cost →
     v ∉ measure_vars_of_cost plates (particle_var_of self) cost →
     v ∉ plates ∩ input_names cost →
     v ∈ particle_var_of self ∧ v ∉ plates).
Proof.
  simpl. split; [done|]. split; [apply probes_NoDup|].
  split; [apply elem_of_probes|]. split; [|split; [|split]]; cycle 3.
  { intros cost v _ Hv Hnm Hnp.
    assert (Hnpl : v ∉ (plate_vars guide_terms ∪ plate_vars model_terms)
                       ∖ particle_var_of self).
    { intros Hpl. apply Hnp. by apply elem_of_intersection. }
    split; [|done].
    destruct (decide (v ∈ particle_var_of self)) as [Hp|Hp]; [done|].
    destruct Hnm. unfold measure_vars_of_cost.
    apply elem_of_difference. split; [|done].
    by apply elem_of_difference. }
  - intros v Hv [[_ Hn]%elem_of_difference|Hm]%elem_of_union; [|done].
    by destruct Hn.
  - intros cost _ v [Hv _]%elem_of_intersection. apply elem_of_union. by left.
  - intros cost v _ Hv Hn.
    destruct (decide (v ∈ particle_var_of self)) as [Hp|Hp]; [by left|right].
    unfold measure_vars_of_cost. rewrite !elem_of_difference.
    split; [split; [done|]|done].
    intros Hpl. apply Hn. apply elem_of_union. left.
    by apply elem_of_difference.
Qed.

Lemma forward_contraction_call_witness :
  @logzq_of (symbolic_lib (fun _ => None))
    {| num_particles := 1; max_plate_nesting := NestInt 0 |}
    ex_guide ex_model (targets_of [p_z; Unary Neg q_z]) =
  Reduce Logaddexp (Binary Add m_z (Constant [("z", Real)] Zeros))
    (({["data"]} : gset name) ∪ {["z"]}).
Proof.
  destruct (@forward_contraction_call (symbolic_lib (fun _ => None))
              {| num_particles := 1; max_plate_nesting := NestInt 0 |}
              ex_guide ex_model [p_z; Unary Neg q_z]) as (Heq & _).
  rewrite Heq. vm_compute. reflexivity.
Defined.

(** C4 (as stated) fails: the cost term [p_z] has the free variable [z], its
    probe has the signature [{z}], and [z], a guide measure variable, is
    eliminated by the forward contraction. *)
Lemma probe_signature_eliminated_counterexample :
  ¬ (∀ costs cost probe v,
       @costs_of (symbolic_lib (fun _ => None)) ex_guide ex_model = Ok costs →
       cost ∈ costs →
       dict_get (targets_of costs) (input_vars cost) = Some probe →
       v ∈ input_names cost → v ∈ input_names probe →
       v ∉ plate_vars_of {| num_particles := 1; max_plate_nesting := NestInt 0 |}
             ex_guide ex_model ∪ measure_vars ex_guide).
Proof.
  intros Hclaim.
  destruct (@costs_of (symbolic_lib (fun _ => None)) ex_guide ex_model)
    as [costs|e] eqn:Hcosts; [|by vm_compute in Hcosts].
  apply (Hclaim costs p_z (Constant [("z", Real)] Zeros) "z" eq_refl).
  - vm_compute in Hcosts. injection Hcosts as <-. right. left.
  - vm_compute in Hcosts. injection Hcosts as <-. vm_compute. reflexivity.
  - vm_compute. reflexivity.
  - vm_compute. reflexivity.
  - apply elem_of_union. right. vm_compute. reflexivity.
Qed.

(** ** The integration loop *)

Section Integration.
Context `{FunsorLib}.

Lemma elbo_step_Ok (targets : dict) (marginals : funsor -> result funsor)
    (plates particle : gset name) (elbo cost elbo' : funsor) :
  elbo_step targets marginals plates particle elbo cost = Ok elbo' ↔
  ∃ probe m term,
    dict_get targets (input_vars cost) = Some probe ∧
    marginals probe = Ok m ∧
    reduce Add (Integrate m cost ((input_names cost ∖ plates) ∖ particle))
      (plates ∩ input_names cost) = Ok term ∧
    elbo' = Binary Add elbo term.
Proof.
  unfold elbo_step, dict_getitem, measure_vars_of_cost. split.
  - intros (target & Htarget & Hrest)%bind_Ok_inv.
    apply bind_Ok_inv in Hrest as (m & Hm & Hrest).
    apply bind_Ok_inv in Hrest as (term & Hterm & [= <-]).
    destruct (dict_get targets (input_vars cost)) as [probe|]; [|done].
    injection Htarget as ->. by exists target, m, term.
  - intros (probe & m & term & -> & Hm & Hterm & ->).
    by rewrite bind_Ok, Hm, bind_Ok, Hterm, bind_Ok.
Qed.

Lemma elbo_loop_spec (targets : dict) (marginals : funsor -> result funsor)
    (plates particle : gset name) (costs : list funsor) (acc elbo : funsor) :
  fold_result (elbo_step targets marginals plates particle) acc costs = Ok elbo ↔
  ∃ terms,
    Forall2 (fun cost term => ∃ probe m,
               dict_get targets (input_vars cost) = Some probe ∧
               marginals probe = Ok m ∧
               reduce Add
                 (Integrate m cost ((input_names cost ∖ plates) ∖ particle))
                 (plates ∩ input_names cost) = Ok term) costs terms ∧
    elbo = foldl (Binary Add) acc terms.
Proof.
  revert acc. induction costs as [|cost costs IH]; intros acc.
  - simpl. split.
    + intros [= <-]. exists []. split; [constructor|done].
    + intros (ts & Hall & ->). by apply Forall2_nil_inv_l in Hall as ->.
  - rewrite fold_result_cons. split.
    + intros (acc' & Hstep & Hrest)%bind_Ok_inv.
      apply elbo_step_Ok in Hstep as (probe & m & term & Hget & Hm & Hterm & ->).
      apply IH in Hrest as (ts & Hall & ->).
      exists (term :: ts). split; [constructor; eauto|done].
    + intros (ts & Hall & ->).
      apply Forall2_cons_inv_l
        in Hall as (term & ts' & (probe & m & Hget & Hm & Hterm) & Hall & ->).
      assert (Hstep : elbo_step targets marginals plates particle acc cost =
                      Ok (Binary Add acc term)).
      { apply elbo_step_Ok. by exists probe, m, term. }
      rewrite Hstep, bind_Ok. apply IH. exists ts'. split; done.
Qed.

End Integration.

Lemma eval_sum (rho : funsor -> Z) (acc : funsor) (ts : list funsor) :
  eval rho (foldl (Binary Add) acc ts) =
  (eval rho acc + foldr Z.add 0 (eval rho <$> ts))%Z.
Proof.
  revert acc. induction ts as [|t ts IH]; intros acc; csimpl; [lia|].
  rewrite IH. simpl. lia.
Qed.

(** C5. When the method returns a loss, every cost term has been handled as
    follows.  The marginal of the term's probe is read from the result of
    [adjoint]; the term is integrated against it with [Integrate] over the
    term's inputs minus the plate variables minus the particle plate; the
    integral is reduced with [add] over the plate variables the term
    carries.  The reduced terms are added up from zero, in cost order; the
    sum is reduced with [mean] over the particle plate, which is
    [num_particles_vectorized] when there is more than one particle and
    nothing otherwise; the loss is the negation of the optimised and
    evaluated result.  Here the plate variables are those of guide and model
    without the particle plate. *)
Theorem loss_integrates_costs `{FunsorLib} (self : ELBO)
    (guide_terms model_terms : terms) (loss : data) :
  let particle : gset name :=
    if decide (1 < num_particles self)%Z
    then {["num_particles_vectorized"]} else ∅ in
  let plates :=
    (plate_vars guide_terms ∪ plate_vars model_terms) ∖ particle in
  loss_from_terms self guide_terms model_terms = Ok loss →
  ∃ costs terms bound,
    costs_of guide_terms model_terms = Ok costs ∧
    Forall2
      (fun cost term => ∃ probe marginal,
         dict_get (targets_of costs) (input_vars cost) = Some probe ∧
         adjoint Logaddexp Add
           (logzq_of self guide_terms model_terms (targets_of costs)) probe =
           Ok marginal ∧
         reduce Add
           (Integrate marginal cost ((input_names cost ∖ plates) ∖ particle))
           (plates ∩ input_names cost) = Ok term)
      costs terms ∧
    (∀ rho, eval rho (foldl (Binary Add) (Number 0) terms) =
            foldr Z.add 0%Z (eval rho <$> terms)) ∧
    reduce Mean (foldl (Binary Add) (Number 0) terms) particle = Ok bound ∧
    loss = neg_data (to_data (apply_optimizer bound)).
Proof.
  simpl. unfold loss_from_terms.
  intros (costs & Hcosts & Hrest)%bind_Ok_inv.
  apply bind_Ok_inv in Hrest as (elbo & Hloop & Hrest).
  apply bind_Ok_inv in Hrest as (bound & Hmean & [= <-]).
  apply elbo_loop_spec in Hloop as (ts & Hall & ->).
  exists costs, ts, bound. split; [done|]. split; [exact Hall|].
  split; [|split; [exact Hmean|done]].
  intros rho. rewrite eval_sum. simpl. lia.
Qed.

Lemma loss_integrates_costs_witness :
  @loss_from_terms (symbolic_lib all_marginals) (two_particles (NestInt 1))
    ex_guide2 ex_model2 =
  Ok (Unary Neg
        (Reduce Mean
           (Binary Add
              (Binary Add
                 (Binary Add (Number 0)
                    (Integrate (Tensor "marginal" [particles; ("z", Real)])
                       p_z2 {["z"]}))
                 (Reduce Add
                    (Integrate
                       (Tensor "marginal"
                          [particles; ("data", Bint 3); ("z", Real)])
                       p_x2 {["z"]})
                    {["data"]}))
              (Integrate (Tensor "marginal" [particles; ("z", Real)])
                 (Unary Neg q_z2) {["z"]}))
           {["num_particles_vectorized"]})).
Proof.
  destruct (@loss_from_terms (symbolic_lib all_marginals)
              (two_particles (NestInt 1)) ex_guide2 ex_model2)
    as [loss|e] eqn:Hloss; [|by vm_compute in Hloss].
  destruct (@loss_integrates_costs (symbolic_lib all_marginals)
              (two_particles (NestInt 1)) ex_guide2 ex_model2 loss Hloss)
    as (costs & ts & bound & _).
  vm_compute in Hloss. injection Hloss as <-. vm_compute. reflexivity.
Defined.

(** ** Further properties of the method *)

(** *** The variables of a cost term *)

(** X4. Every input variable of a cost term is dealt with exactly once: it
    is integrated against the marginal, or sum-reduced as a plate, or it is
    the particle plate that the final mean reduction removes.  The three
    sets are pairwise disjoint and cover the inputs of the term. *)
Theorem cost_variables_partition (self : ELBO) (guide_terms model_terms : terms)
    (cost : funsor) :
  let particle := particle_var_of self in
  let plates := plate_vars_of self guide_terms model_terms in
  let integrated := measure_vars_of_cost plates particle cost in
  let summed := plates ∩ input_names cost in
  integrated ## summed ∧
  integrated ## particle ∧
  summed ## particle ∧
  input_names cost = integrated ∪ summed ∪ (particle ∩ input_names cost).
Proof.
  simpl. unfold measure_vars_of_cost, plate_vars_of.
  repeat split.
  - intros v [[_ Hn]%elem_of_difference _]%elem_of_difference
             [Hp _]%elem_of_intersection. by destruct Hn.
  - intros v [_ Hn]%elem_of_difference Hp. by destruct Hn.
  - intros v [[_ Hn]%elem_of_difference _]%elem_of_intersection Hp.
    by destruct Hn.
  - apply set_eq. intros v.
    rewrite !elem_of_union, !elem_of_intersection, !elem_of_difference. split.
    + intros Hv.
      destruct (decide (v ∈ particle_var_of self)) as [Hp|Hp]; [by right|left].
      destruct (decide (v ∈ plate_vars guide_terms ∪ plate_vars model_terms))
        as [Hpl|Hpl].
      * right. done.
      * left. split; [split; [done|]|done]. by intros [? _].
    + intros [[[[? _] _]|[_ ?]]|[_ ?]]; done.
Qed.

(** *** Local plates of a group *)

(** X5. A plate is eliminated locally in a group exactly when some factor
    of the group has it and some other factor of the group does not: the
    eliminated set is the group's elimination variables together with the
    model plates on which the factors of the group disagree. *)
Theorem local_plate_iff_not_shared (model_terms : terms)
    (group_factors : list funsor) (group_vars : gset name) :
  group_factors ≠ [] →
  ∃ c, group_call model_terms (group_factors, group_vars) = Ok c ∧
       ∀ p, p ∈ call_eliminate c ↔
            p ∈ group_vars ∨
            (p ∈ plate_vars model_terms ∧
             (∃ f, f ∈ group_factors ∧ p ∈ input_names f) ∧
             (∃ f, f ∈ group_factors ∧ p ∉ input_names f)).
Proof.
  intros Hne.
  destruct (outermost_plates_ok model_terms group_factors Hne)
    as (outer & Hok & Hmem).
  eexists. split; [unfold group_call; simpl; by rewrite Hok|].
  intros p. simpl. rewrite elem_of_union, elem_of_difference, Hmem.
  rewrite elem_of_group_plates. split.
  - intros [?|[[Hpl Hex] Hnall]]; [by left|right].
    split; [done|]. split; [done|].
    destruct (decide (Exists (fun f => p ∉ input_names f) group_factors))
      as [Hex'|Hnex].
    + apply Exists_exists in Hex' as (f & ? & ?). eauto.
    + destruct Hnall. intros f Hf. split; [|by apply elem_of_group_plates].
      destruct (decide (p ∈ input_names f)) as [|Hnp]; [done|].
      destruct Hnex. apply Exists_exists. eauto.
  - intros [?|(Hpl & Hex & f & Hf & Hnp)]; [by left|right].
    split; [done|]. intros Hall. by destruct (Hall f Hf).
Qed.

Lemma local_plate_iff_not_shared_witness :
  ∃ c, group_call ex_model ex_group = Ok c ∧ "data" ∈ call_eliminate c.
Proof.
  destruct (local_plate_iff_not_shared ex_model ex_group.1 ex_group.2)
    as (c & Hc & Hiff); [done|].
  exists c. split; [done|]. apply Hiff. right.
  split; [vm_compute; reflexivity|]. split.
  - exists p_obs. split; [right; left|vm_compute; reflexivity].
  - exists p_aux. split; [left|]. vm_compute. discriminate.
Defined.

(** X6. A group with a single factor has no local plate: every model plate
    of the factor is an outer plate and only the group's elimination
    variables are eliminated. *)
Theorem single_factor_group (model_terms : terms) (f : funsor)
    (group_vars : gset name) :
  outermost_plates_of model_terms [f] =
    Ok (input_names f ∩ group_plates_of model_terms [f]) ∧
  input_names f ∩ group_plates_of model_terms [f] =
    plate_vars model_terms ∩ input_names f ∧
  group_call model_terms ([f], group_vars) =
    Ok {| call_factors := [f];
          call_plates := plate_vars model_terms ∩ input_names f;
          call_eliminate := group_vars |}.
Proof.
  assert (Hgp : group_plates_of model_terms [f] =
                plate_vars model_terms ∩ input_names f).
  { unfold group_plates_of, frozenset_union. simpl. f_equal.
    apply set_eq. intros v. rewrite elem_of_union. split; [|by right].
    intros [?%elem_of_empty|?]; done. }
  split; [done|]. split.
  - rewrite Hgp. apply set_eq. intros v. rewrite !elem_of_intersection.
    split; [by intros [_ ?]|by intros [? ?]].
  - unfold group_call, outermost_plates_of. simpl. rewrite Hgp. cbn.
    do 2 f_equal. apply set_eq. intros v.
    rewrite elem_of_union, elem_of_difference, !elem_of_intersection.
    split; [|by left]. intros [?|[[? ?] Hn]]; [done|]. by destruct Hn.
Qed.

(** *** More on the probe map *)

Lemma dict_get_targets_acc (costs : list funsor) (acc : dict)
    (k : gset (name * domain)) :
  dict_get (foldl targets_step acc costs) k =
  match dict_get acc k with
  | Some p => Some p
  | None => (fun c => Constant (inputs c) Zeros) <$> first_with_signature k costs
  end.
Proof.
  revert acc. induction costs as [|c costs IH]; intros acc; simpl.
  - by destruct (dict_get acc k).
  - rewrite IH. unfold targets_step.
    destruct (dict_get acc (input_vars c)) as [q|] eqn:Hc.
    + destruct (dict_get acc k) as [p|] eqn:Hk; [done|].
      destruct (decide (input_vars c = k)) as [Heq|Hne]; [|done].
      rewrite Heq in Hc. by rewrite Hc in Hk.
    + rewrite dict_get_app. destruct (dict_get acc k) as [p|] eqn:Hk; [done|].
      simpl. destruct (decide (k = input_vars c)) as [->|Hne].
      * by rewrite decide_True.
      * by rewrite decide_False.
Qed.

(** X7. The probe stored under a signature is built from the first cost
    term, in cost order, that has this signature (so the probe carries that
    term's input dictionary), and a signature no cost term has is not a key
    of the map. *)
Theorem probe_from_first_cost (costs : list funsor) (k : gset (name * domain)) :
  dict_get (targets_of costs) k =
    (fun c => Constant (inputs c) Zeros) <$> first_with_signature k costs ∧
  (dict_get (targets_of costs) k = None ↔ ∀ c, c ∈ costs → input_vars c ≠ k).
Proof.
  assert (Hget : dict_get (targets_of costs) k =
                 (fun c => Constant (inputs c) Zeros) <$>
                   first_with_signature k costs).
  { unfold targets_of. by rewrite dict_get_targets_acc. }
  split; [done|]. rewrite Hget. clear Hget.
  induction costs as [|c costs IH]; simpl.
  - split; [|done]. intros _ c Hc. by apply elem_of_nil in Hc.
  - destruct (decide (input_vars c = k)) as [Heq|Hne]; simpl.
    + split; [done|]. intros Hall. destruct (Hall c); [left|done].
    + rewrite IH. split.
      * intros Hall c' [->|Hc']%elem_of_cons; auto.
      * intros Hall c' Hc'. apply Hall. by right.
Qed.

Lemma targets_step_inputs (acc : dict) (c1 c2 : funsor) :
  inputs c1 = inputs c2 → targets_step acc c1 = targets_step acc c2.
Proof. unfold targets_step, input_vars. by intros ->. Qed.

(** X8. The probes, and with them the forward contraction, depend on the
    cost terms through their input dictionaries only: two cost lists with
    the same inputs, term by term, give the same probe map and the same
    [logzq]. *)
Theorem forward_depends_on_inputs_only `{FunsorLib} (self : ELBO)
    (guide_terms model_terms : terms) (costs1 costs2 : list funsor) :
  inputs <$> costs1 = inputs <$> costs2 →
  targets_of costs1 = targets_of costs2 ∧
  logzq_of self guide_terms model_terms (targets_of costs1) =
  logzq_of self guide_terms model_terms (targets_of costs2).
Proof.
  intros Heq.
  assert (Ht : targets_of costs1 = targets_of costs2); [|by rewrite Ht].
  unfold targets_of. generalize ([] : dict). revert costs2 Heq.
  induction costs1 as [|c1 costs1 IH]; intros [|c2 costs2] Heq acc; try done.
  simpl. injection Heq as Hc Hrest.
  rewrite (targets_step_inputs acc c1 c2 Hc). by apply IH.
Qed.

Lemma forward_depends_on_inputs_only_witness :
  targets_of [p_z; q_z] = targets_of [Unary Neg q_z; Unary Neg p_z].
Proof.
  apply (@forward_depends_on_inputs_only (symbolic_lib all_marginals)
           one_particle ex_guide ex_model
           [p_z; q_z] [Unary Neg q_z; Unary Neg p_z]).
  reflexivity.
Defined.

Lemma targets_of_length_le (costs : list funsor) :
  length (targets_of costs) ≤ length costs.
Proof.
  induction costs as [|c costs IH] using rev_ind; [done|].
  rewrite targets_of_snoc, length_app. simpl. unfold targets_step.
  destruct (dict_get (targets_of costs) (input_vars c)).
  - lia.
  - rewrite length_app. simpl. lia.
Qed.

(** X9. The number of probes is the number of distinct signatures among the
    cost terms; it never exceeds the number of cost terms. *)
Theorem probes_count (costs : list funsor) :
  length (dict_values (targets_of costs)) =
    size (list_to_set (input_vars <$> costs) : gset (gset (name * domain))) ∧
  length (dict_values (targets_of costs)) ≤ length costs.
Proof.
  unfold dict_values. rewrite length_fmap. split; [|apply targets_of_length_le].
  destruct (targets_of_invariant costs) as (Hnd & Hprobe & Hall).
  rewrite <- (length_fmap fst), <- (size_list_to_set (C:=gset _) _ Hnd).
  f_equal. apply set_eq. intros k. rewrite !elem_of_list_to_set. split.
  - intros ([k' p] & -> & Hkp)%list_elem_of_fmap.
    destruct (Hprobe _ _ Hkp) as (c & Hc & <- & _).
    apply list_elem_of_fmap. eauto.
  - intros (c & -> & Hc)%list_elem_of_fmap.
    destruct (Hall c Hc) as [p Hp]. apply list_elem_of_fmap.
    exists (input_vars c, p). split; [done|]. by apply dict_get_Some_elem.
Qed.

(** *** The handlers *)

(** X10. The [with] statement enters [enum] with [first_available_dim]
    equal to [-max_plate_nesting - 1] for an integer nesting and [None]
    otherwise, then [provenance], then, exactly when there is more than one
    particle, the plate [num_particles_vectorized] of size [num_particles]
    at dimension [-max_plate_nesting] (one to the right of
    [first_available_dim] for an integer nesting), and an empty [ExitStack]
    otherwise.  With at most one particle [max_plate_nesting] is never
    negated, so [None] is as good as any value.  With more than one particle
    and [max_plate_nesting = None] the negation raises [TypeError] once
    [enum] and [provenance] are entered, and the method raises it. *)
Theorem contexts_cases `{FunsorLib} (self : ELBO) :
  (∀ hs, contexts self = Ok hs →
     ∃ third,
       hs = [enum (first_available_dim_of self); provenance; third] ∧
       ((1 < num_particles self)%Z →
          ∃ d, py_neg (max_plate_nesting self) = Ok d ∧
               third = plate "num_particles_vectorized" (num_particles self) d ∧
               is_ok (enter third) ∧
               ∀ n, max_plate_nesting self = NestInt n →
                    d = DimInt (- n) ∧
                    first_available_dim_of self = Some (- n - 1)%Z) ∧
       ((num_particles self ≤ 1)%Z → third = ExitStack)) ∧
  ((num_particles self ≤ 1)%Z →
     contexts self =
       (_ ← enter (enum (first_available_dim_of self));
        _ ← enter provenance;
        Ok [enum (first_available_dim_of self); provenance; ExitStack])) ∧
  ((1 < num_particles self)%Z → max_plate_nesting self = NestNone →
     is_ok (enter (enum None)) → is_ok (enter provenance) →
     ∃ msg, contexts self = Raise (TypeError msg) ∧
            ∀ prog, differentiable_loss self prog = Raise (TypeError msg)) ∧
  (max_plate_nesting self = NestNone ∨ max_plate_nesting self = NestInf →
     first_available_dim_of self = None).
Proof.
  split; [|split; [|split]].
  - intros hs Hctx. unfold contexts in Hctx.
    apply bind_Ok_inv in Hctx as ([] & _ & Hctx).
    apply bind_Ok_inv in Hctx as ([] & _ & Hctx).
    apply bind_Ok_inv in Hctx as (third & Hthird & [= <-]).
    exists third. split; [done|].
    destruct (decide (1 < num_particles self)%Z) as [Hgt|Hle].
    + apply bind_Ok_inv in Hthird as (d & Hd & Hthird).
      apply bind_Ok_inv in Hthird as ([] & Henter & [= <-]).
      split; [|lia]. intros _. exists d. split; [done|]. split; [done|].
      split; [by eexists|]. intros n Hn. unfold first_available_dim_of.
      rewrite Hn in Hd |- *. simpl in Hd. by injection Hd as <-.
    + injection Hthird as <-. split; [done|done].
  - intros Hle. unfold contexts. by rewrite decide_False by lia.
  - intros Hgt Hn [[] He] [[] Hp].
    assert (Hfad : first_available_dim_of self = None).
    { unfold first_available_dim_of. by rewrite Hn. }
    assert (Hctx : contexts self =
                   Raise (TypeError "bad operand type for unary -: 'NoneType'")).
    { unfold contexts. rewrite Hfad, He, bind_Ok, Hp, bind_Ok.
      rewrite decide_True by done. by rewrite Hn. }
    eexists. split; [exact Hctx|]. intros prog.
    unfold differentiable_loss. by rewrite Hctx.
  - unfold first_available_dim_of. by intros [->| ->].
Qed.

Lemma contexts_cases_witness :
  @contexts (symbolic_lib all_marginals)
    {| num_particles := 1; max_plate_nesting := NestNone |} =
    Ok [enum None; provenance; ExitStack] ∧
  @contexts (symbolic_lib all_marginals) (two_particles (NestInt 3)) =
    Ok [enum (Some (-4)%Z); provenance;
        plate "num_particles_vectorized" 2 (DimInt (-3))] ∧
  ∃ msg, @differentiable_loss (symbolic_lib all_marginals)
           (two_particles NestNone) (ex_guide2, ex_model2) =
         Raise (TypeError msg).
Proof.
  split; [|split].
  - destruct (@contexts_cases (symbolic_lib all_marginals)
                {| num_particles := 1; max_plate_nesting := NestNone |})
      as (_ & Hone & _).
    rewrite Hone by (simpl; lia). reflexivity.
  - destruct (@contexts (symbolic_lib all_marginals) (two_particles (NestInt 3)))
      as [hs|e] eqn:Hctx; [|by vm_compute in Hctx].
    destruct (@contexts_cases (symbolic_lib all_marginals)
                (two_particles (NestInt 3))) as (Hinst & _).
    destruct (Hinst hs Hctx) as (third & -> & Hplate & _).
    destruct Hplate as (d & _ & -> & _ & Hint); [simpl; lia|].
    destruct (Hint 3%Z eq_refl) as [-> _]. reflexivity.
  - destruct (@contexts_cases (symbolic_lib all_marginals)
                (two_particles NestNone)) as (_ & _ & Hnone & _).
    destruct Hnone as (msg & _ & Hdl); [simpl; lia|done|by eexists|by eexists|].
    exists msg. apply Hdl.
Defined.

(** *** No model-only latent *)

(** X11. When every measure variable of the model is one of the guide's, no
    model log-factor is sent to partial elimination: the partition receives
    the model's log-measures alone, and the costs are the contracted
    log-measures, then every model log-factor as it stands, then the negated
    guide log-factors.  If moreover the model has no log-measure and the
    partition of no factor has no group, the costs are just the model
    log-factors followed by the negated guide log-factors. *)
Theorem no_model_only_latents_costs `{FunsorLib} (guide_terms model_terms : terms) :
  measure_vars model_terms ⊆ measure_vars guide_terms →
  costs_of guide_terms model_terms =
    (cc ← fold_result (contract_step model_terms) []
            (_partition (log_measures model_terms) (measure_vars model_terms));
     Ok (cc ++ log_factors model_terms ++ (Unary Neg <$> log_factors guide_terms))) ∧
  (log_measures model_terms = [] →
   _partition [] (measure_vars model_terms) = [] →
   costs_of guide_terms model_terms =
     Ok (log_factors model_terms ++ (Unary Neg <$> log_factors guide_terms))).
Proof.
  intros Hsub.
  assert (Heq : costs_of guide_terms model_terms =
                (cc ← fold_result (contract_step model_terms) []
                        (_partition (log_measures model_terms)
                           (measure_vars model_terms));
                 Ok (cc ++ log_factors model_terms ++
                     (Unary Neg <$> log_factors guide_terms)))).
  { unfold costs_of, contracted_costs_of.
    rewrite (split_factors_no_model_only guide_terms model_terms Hsub). simpl.
    rewrite app_nil_r.
    destruct (fold_result (contract_step model_terms) []
                (_partition (log_measures model_terms) (measure_vars model_terms)))
      as [cc|e]; [|done].
    rewrite !bind_Ok. by rewrite <- app_assoc. }
  split; [done|]. intros Hnil Hpart. rewrite Heq, Hnil, Hpart. reflexivity.
Qed.

Lemma no_model_only_latents_costs_witness :
  @costs_of (symbolic_lib all_marginals) ex_guide ex_model_shared =
    Ok [p_z; Unary Neg q_z].
Proof.
  destruct (@no_model_only_latents_costs (symbolic_lib all_marginals)
              ex_guide ex_model_shared) as [_ Hplain].
  - simpl. apply empty_subseteq.
  - by apply Hplain.
Defined.

(** *** The sign of the costs *)

Lemma eval_sum_app (rho : funsor -> Z) (l1 l2 : list funsor) :
  foldr Z.add 0%Z (eval rho <$> (l1 ++ l2)) =
  (foldr Z.add 0 (eval rho <$> l1) + foldr Z.add 0 (eval rho <$> l2))%Z.
Proof. induction l1 as [|x l1 IH]; csimpl; [done|]. rewrite IH. lia. Qed.

Lemma eval_sum_neg (rho : funsor -> Z) (l : list funsor) :
  foldr Z.add 0%Z (eval rho <$> (Unary Neg <$> l)) =
  (- foldr Z.add 0 (eval rho <$> l))%Z.
Proof. induction l as [|x l IH]; csimpl; [done|]. rewrite IH. lia. Qed.

(** X12. The values of the cost terms add up to the contracted costs plus
    the model log-factors that were not contracted minus the guide
    log-factors: model terms count positively, guide terms negatively, and
    only the contracted costs carry the scale. *)
Theorem costs_signed_sum `{FunsorLib} (guide_terms model_terms : terms)
    (costs : list funsor) (rho : funsor -> Z) :
  costs_of guide_terms model_terms = Ok costs →
  ∃ eliminated,
    contracted_costs_of guide_terms model_terms =
      Ok ((fun f => Binary Mul (scale model_terms) f) <$> eliminated) ∧
    foldr Z.add 0%Z (eval rho <$> costs) =
    (eval rho (scale model_terms) * foldr Z.add 0 (eval rho <$> eliminated)
     + foldr Z.add 0
         (eval rho <$>
            filter (fun f => (measure_vars model_terms ∖ measure_vars guide_terms)
                             ∩ input_names f = ∅) (log_factors model_terms))
     - foldr Z.add 0 (eval rho <$> log_factors guide_terms))%Z.
Proof.
  intros Hcosts. unfold costs_of in Hcosts.
  apply bind_Ok_inv in Hcosts as (cc & Hcc & [= <-]).
  assert (Hel : ∃ eliminated,
             cc = (fun f => Binary Mul (scale model_terms) f) <$> eliminated).
  { unfold contracted_costs_of in Hcc.
    apply contract_loop_spec in Hcc as (gcs & Hall & ->). simpl.
    induction Hall as [|g gc groups gcs Hg _ [el Hel]]; [by exists []|].
    unfold contract_group in Hg.
    apply bind_Ok_inv in Hg as (c & _ & [= <-]).
    eexists (_ ++ el). simpl. by rewrite Hel, fmap_app. }
  destruct Hel as [el ->]. exists el. split; [done|].
  unfold model_measure_vars_of. rewrite split_factors_filter. simpl.
  rewrite !eval_sum_app, eval_sum_neg.
  assert (Hscale : foldr Z.add 0%Z
                     (eval rho <$> ((fun f => Binary Mul (scale model_terms) f) <$> el)) =
                   (eval rho (scale model_terms) * foldr Z.add 0 (eval rho <$> el))%Z).
  { clear. induction el as [|x el IH]; csimpl; [lia|]. rewrite IH. lia. }
  rewrite Hscale. lia.
Qed.

Lemma costs_signed_sum_witness :
  ∃ costs,
    @costs_of (symbolic_lib all_marginals) ex_guide ex_model = Ok costs ∧
    foldr Z.add 0%Z (eval (fun _ => 3%Z) <$> costs) = 6%Z.
Proof.
  destruct (@costs_of (symbolic_lib all_marginals) ex_guide ex_model)
    as [costs|e] eqn:Hcosts; [|by vm_compute in Hcosts].
  destruct (@costs_signed_sum (symbolic_lib all_marginals) ex_guide ex_model
              costs (fun _ => 3%Z) Hcosts) as (el & _ & _).
  exists costs. split; [done|].
  vm_compute in Hcosts. injection Hcosts as <-. reflexivity.
Defined.
